(** * Dissembler: signal-driven lifecycle supervisor

    Shallow embedding of [dissembler.go] (package [dissembler]): the
    [Lifecycle] and [Reloader] interfaces, [Serve], [Dissembler.Serve] and
    [Dissembler.Wait], followed by the properties of the shutdown
    coordinator.

    Modelling choices.
    - A signal is a [syscall.Signal], an [int]: here a [Z].
    - A Go [error] is [option string]: [None] is [nil], [Some m] an error
      whose [Error()] text is [m].
    - A lifecycle acts on a state of the application, of an arbitrary type
      [St]; a callback is a function [St -> St * error].  Callbacks are
      total and run atomically.
    - What the supervisor does to the outside is kept in a [World]: the
      application state, the callbacks invoked with their results, the
      entries written to [DissemblerLogger], the subscriptions made with
      [signal.Notify], the local variable [err] of [Dissembler.Serve] and
      the goroutine running [Start].
    - [<-ch] is a read of the next element of the sequence of signals that
      the channel yields; when the sequence is exhausted the receive
      blocks, and the outcome is the state in which the loop is blocked.
    - The goroutine started by [go] runs at a scheduling point chosen by
      the field [sched] of the world: every order of [Start] with respect
      to [Stop] and to the return of [Serve] is an execution of the
      model. *)

From Stdlib Require Import ZArith List String Bool Arith Lia.
Import ListNotations.

Set Implicit Arguments.

(** ** Package [syscall]: signal numbers (linux) *)

Module syscall.
Definition Signal : Type := Z.
Definition SIGHUP  : Signal := 1%Z.
Definition SIGINT  : Signal := 2%Z.
Definition SIGQUIT : Signal := 3%Z.
Definition SIGUSR1 : Signal := 10%Z.
Definition SIGUSR2 : Signal := 12%Z.
Definition SIGTERM : Signal := 15%Z.
End syscall.

Definition Signal : Type := syscall.Signal.

(** The constants re-exported by the package. *)
Definition SIGINT  : Signal := syscall.SIGINT.
Definition SIGHUP  : Signal := syscall.SIGHUP.
Definition SIGQUIT : Signal := syscall.SIGQUIT.
Definition SIGTERM : Signal := syscall.SIGTERM.
Definition SIGUSR1 : Signal := syscall.SIGUSR1.
Definition SIGUSR2 : Signal := syscall.SIGUSR2.

(** Go's [error]. *)
Definition error : Type := option string.

(** ** The interfaces *)

(** [type Reloader interface { Reload() error }] *)
Record Reloader (St : Type) : Type := {
  Reload : St -> St * error
}.

(** [type Lifecycle interface { Init() error; Start() error; Stop() error }].
    [as_Reloader] is what the value gives when it is asked for the optional
    interface [Reloader]: [Some] when it also has a method [Reload]. *)
Record Lifecycle (St : Type) : Type := {
  Init  : St -> St * error;
  Start : St -> St * error;
  Stop  : St -> St * error;
  as_Reloader : option (Reloader St)
}.

(** [type Dissembler struct { lifecycle Lifecycle }] *)
Record Dissembler (St : Type) : Type := {
  lifecycle : Lifecycle St
}.

(** ** The world *)

Inductive Method : Type := MInit | MStart | MStop | MReload.

Definition Method_eqb (a b : Method) : bool :=
  match a, b with
  | MInit, MInit | MStart, MStart | MStop, MStop | MReload, MReload => true
  | _, _ => false
  end.

(** An entry of [DissemblerLogger]: [Info(msg, log.String("signal", sig.String()))]
    or [Error(msg, log.String("error", err.Error()))]. *)
Inductive Entry : Type :=
| LogInfo (msg : string) (sig : Signal)
| LogError (msg : string) (err : string).

(** The goroutine of [Dissembler.Serve]. *)
Inductive Task : Type :=
| NotSpawned
| Pending
| Finished (ret : error).

(** A subscription made with [signal.Notify]: the capacity of the channel
    and the signals asked for. *)
Definition Subscription : Type := (nat * list Signal)%type.

Record World (St : Type) : Type := mkWorld {
  app   : St;
  calls : list (Method * error);
  logs  : list Entry;
  subs  : list Subscription;
  err   : error;
  task  : Task;
  sched : nat
}.

Arguments mkWorld {St}.

(** A world in which nothing has happened yet; [n] is the scheduling point
    at which the goroutine, once spawned, runs. *)
Definition fresh {St} (a : St) (n : nat) : World St :=
  mkWorld a [] [] [] None NotSpawned n.

Section Supervisor.

Variable St : Type.

(** Invoking a callback: the application state changes, the call and its
    result are recorded. *)
Definition invoke (m : Method) (f : St -> St * error) (w : World St)
  : World St * error :=
  let (a, e) := f (app w) in
  (mkWorld a (calls w ++ [(m, e)]) (logs w) (subs w) (err w) (task w) (sched w),
   e).

Definition set_err (e : error) (w : World St) : World St :=
  mkWorld (app w) (calls w) (logs w) (subs w) e (task w) (sched w).

Definition set_task (t : Task) (w : World St) : World St :=
  mkWorld (app w) (calls w) (logs w) (subs w) (err w) t (sched w).

Definition set_sched (n : nat) (w : World St) : World St :=
  mkWorld (app w) (calls w) (logs w) (subs w) (err w) (task w) n.

Definition write_log (x : Entry) (w : World St) : World St :=
  mkWorld (app w) (calls w) (logs w ++ [x]) (subs w) (err w) (task w) (sched w).

(** [ch := make(chan os.Signal, cap); signal.Notify(ch, sigs...)] *)
Definition Notify (cap : nat) (sigs : list Signal) (w : World St) : World St :=
  mkWorld (app w) (calls w) (logs w) (subs w ++ [(cap, sigs)]) (err w) (task w)
          (sched w).

(** The body of the goroutine:
    [err = d.lifecycle.Start(); if err != nil { return err }; return nil].
    The assignment is to the variable [err] of [Serve]; what the function
    returns is dropped by [go]. *)
Definition run_task (d : Dissembler St) (w : World St) : World St :=
  let (w1, e) := invoke MStart (Start (lifecycle d)) w in
  let w2 := set_err e w1 in
  set_task (Finished (match e with Some m => Some m | None => None end)) w2.

(** A scheduling point of the main thread: a pending goroutine runs here
    when its turn has come. *)
Definition yield (d : Dissembler St) (w : World St) : World St :=
  match task w with
  | Pending =>
      match sched w with
      | O => run_task d w
      | S n => set_sched n w
      end
  | _ => w
  end.

(** What [Wait] has done when the main thread is observed: it has
    returned, [rest] being the signals never received, or it is blocked
    in [<-ch]. *)
Inductive WaitResult : Type :=
| Returned (r : Signal * error) (w : World St) (rest : list Signal)
| Blocked (w : World St).

(** The [for] loop of [Wait]; [ch] is the sequence of signals the channel
    yields.  The main thread has a scheduling point before each receive
    and one after the call of [Stop], before it returns: the goroutine can
    run [Start] before [Stop], after it, or not before [Serve] returns. *)
Fixpoint Wait_loop (d : Dissembler St) (ch : list Signal) (w : World St)
  : WaitResult :=
  let w := yield d w in
  match ch with
  | [] => Blocked w
  | sig :: ch' =>
      let w := write_log (LogInfo "signal caught" sig) w in
      if Z.eqb sig syscall.SIGINT then
        let (w, _) := invoke MStop (Stop (lifecycle d)) w in
        Returned (syscall.SIGINT, None) (yield d w) ch'
      else if Z.eqb sig syscall.SIGQUIT then
        let (w, _) := invoke MStop (Stop (lifecycle d)) w in
        Returned (syscall.SIGQUIT, None) (yield d w) ch'
      else if Z.eqb sig syscall.SIGTERM then
        let (w, _) := invoke MStop (Stop (lifecycle d)) w in
        Returned (syscall.SIGTERM, None) (yield d w) ch'
      else Wait_loop d ch' w
  end.

(** [func (d *Dissembler) Wait() (syscall.Signal, error)] *)
Definition Wait (d : Dissembler St) (ch : list Signal) (w : World St)
  : WaitResult :=
  let w := Notify 2
             [syscall.SIGHUP; syscall.SIGINT; syscall.SIGQUIT;
              syscall.SIGTERM; syscall.SIGUSR1; syscall.SIGUSR2] w in
  Wait_loop d ch w.

Inductive ServeResult : Type :=
| ServeReturned (e : error) (w : World St)
| ServeBlocked (w : World St).

(** The end of [Dissembler.Serve], from the result of [d.Wait()]:
    [if _, err := d.Wait(); nil != err { DissemblerLogger.Error(...) }; return nil].
    While [Wait] is blocked, so is [Serve]. *)
Definition after_Wait (r : WaitResult) : ServeResult :=
  match r with
  | Returned (_, e') w rest =>
      let w :=
        match e' with
        | Some m =>
            write_log
              (LogError "Unable to finish waiting for Dissembler to shutdown" m) w
        | None => w
        end in
      ServeReturned None w
  | Blocked w => ServeBlocked w
  end.

(** [func (d *Dissembler) Serve() error] *)
Definition Dissembler_Serve (d : Dissembler St) (ch : list Signal)
  (w : World St) : ServeResult :=
  let (w, e) := invoke MInit (Init (lifecycle d)) w in
  let w := set_err e w in
  match e with
  | Some _ => ServeReturned e w
  | None =>
      let w := set_task Pending w in
      after_Wait (Wait d ch w)
  end.

(** [func Serve(lc Lifecycle) error] *)
Definition Serve (lc : Lifecycle St) (ch : list Signal) (w : World St)
  : ServeResult :=
  let dissembler := {| lifecycle := lc |} in
  Dissembler_Serve dissembler ch w.

End Supervisor.

Arguments Returned {St}.
Arguments Blocked {St}.
Arguments ServeReturned {St}.
Arguments ServeBlocked {St}.

(** ** The relay of signals to a subscribed channel

    Modelled, not part of the source of this package: what the Go runtime
    and package [os/signal] do with a burst of signals raised before any
    of them is handed over.  The runtime keeps the pending signals as a
    set: a signal raised again while it is pending is merged with the
    first.  It hands the pending signals over by increasing signal number,
    and [os/signal] sends each one to the channel without blocking: the
    signal is dropped when the buffer is full, and a signal that was not
    asked for is not sent. *)

Module signal.

Definition wants (sub : Subscription) (s : Signal) : bool :=
  existsb (Z.eqb s) (snd sub).

(** The set of pending signals, kept by increasing number, after [s] is
    raised. *)
Fixpoint raise (s : Signal) (pending : list Signal) : list Signal :=
  match pending with
  | [] => [s]
  | x :: rest =>
      if Z.ltb s x then s :: pending
      else if Z.eqb s x then pending
      else x :: raise s rest
  end.

(** The buffer of the channel after the pending signal [s] is handed
    over. *)
Definition relay (sub : Subscription) (buf : list Signal) (s : Signal)
  : list Signal :=
  if wants sub s && (List.length buf <? fst sub) then buf ++ [s] else buf.

(** The buffer of the channel after a burst of signals raised while
    nothing is handed over or received. *)
Definition relay_all (sub : Subscription) (buf : list Signal)
  (burst : list Signal) : list Signal :=
  fold_left (relay sub) (fold_left (fun p s => raise s p) burst []) buf.

End signal.

(** ** Observations *)

(** The signals on which [Wait] stops the lifecycle and returns. *)
Definition terminating : list Signal := [SIGINT; SIGQUIT; SIGTERM].

(** How many times method [m] occurs in a list of recorded calls. *)
Definition count (m : Method) (l : list (Method * error)) : nat :=
  List.length (filter (fun c => Method_eqb (fst c) m) l).

(** Calls made by the goroutine only. *)
Definition only_start (l : list (Method * error)) : Prop :=
  Forall (fun c => fst c = MStart) l.

(** The log entries that are errors. *)
Definition is_error (x : Entry) : bool :=
  match x with
  | LogError _ _ => true
  | LogInfo _ _ => false
  end.

(** The world a result of [Wait] was observed in. *)
Definition world_of {St} (r : WaitResult St) : World St :=
  match r with
  | Returned _ w _ => w
  | Blocked w => w
  end.

Definition serve_world {St} (r : ServeResult St) : World St :=
  match r with
  | ServeReturned _ w => w
  | ServeBlocked w => w
  end.

(** What the caller of [Serve] sees: [Some e] when [Serve] has returned
    [e], [None] while it has not returned. *)
Definition serve_return {St} (r : ServeResult St) : option error :=
  match r with
  | ServeReturned e _ => Some e
  | ServeBlocked _ => None
  end.

(** One turn of the loop on a signal that matches no [case]. *)
Definition ignore {St} (d : Dissembler St) (w : World St) (s : Signal)
  : World St :=
  write_log (LogInfo "signal caught" s) (yield d w).

Definition ignore_all {St} (d : Dissembler St) (pre : list Signal)
  (w : World St) : World St :=
  fold_left (ignore d) pre w.

(** The turn of the loop on a signal that matches a [case]: the world in
    which [Wait] returns. *)
Definition shut_down {St} (d : Dissembler St) (w : World St) (s : Signal)
  : World St :=
  yield d (fst (invoke MStop (Stop (lifecycle d)) (ignore d w s))).

(** The world in which [Dissembler.Serve] enters [Wait] when [Init]
    succeeds. *)
Definition initialised {St} (d : Dissembler St) (w : World St) : World St :=
  set_task Pending (set_err None (fst (invoke MInit (Init (lifecycle d)) w))).

(** A lifecycle that records the name of each callback it runs. *)
Definition recorder : Lifecycle (list string) := {|
  Init  := fun l => (l ++ ["Init"%string], None);
  Start := fun l => (l ++ ["Start"%string], None);
  Stop  := fun l => (l ++ ["Stop"%string], None);
  as_Reloader := None
|}.

(** A lifecycle whose every callback after [Init] fails; its state counts
    the callbacks run. *)
Definition failing : Lifecycle nat := {|
  Init  := fun n => (S n, None);
  Start := fun n => (S n, Some "start failed"%string);
  Stop  := fun n => (S n, Some "stop failed"%string);
  as_Reloader := None
|}.

(** The lifecycle [failing] with a [Start] that succeeds. *)
Definition starting : Lifecycle nat := {|
  Init  := Init failing;
  Start := fun n => (S n, None);
  Stop  := Stop failing;
  as_Reloader := None
|}.

(** A lifecycle that is also a [Reloader]. *)
Definition reloadable : Lifecycle nat := {|
  Init  := fun n => (n, None);
  Start := fun n => (n, None);
  Stop  := fun n => (n, None);
  as_Reloader := Some {| Reload := fun n => (S n, None) |}
|}.

(** A lifecycle whose [Init] fails. *)
Definition unconfigured : Lifecycle nat := {|
  Init  := fun n => (n, Some "no config"%string);
  Start := fun n => (S n, None);
  Stop  := fun n => (S n, None);
  as_Reloader := None
|}.

(** What the goroutine still owes: 1 while it is spawned and has not run
    [Start], 0 otherwise. *)
Definition budget {St} (w : World St) : nat :=
  match task w with
  | Pending => 1
  | _ => 0
  end.

(** The same lifecycle with another answer to the query for [Reloader]. *)
Definition with_Reloader {St} (lc : Lifecycle St) (r : option (Reloader St))
  : Lifecycle St := {|
  Init := Init lc;
  Start := Start lc;
  Stop := Stop lc;
  as_Reloader := r
|}.

(** ** Facts about the primitives and the loop *)

Lemma count_app m l1 l2 : count m (l1 ++ l2) = count m l1 + count m l2.
Proof. unfold count. now rewrite filter_app, length_app. Qed.

Lemma count_only_start m l : only_start l -> m <> MStart -> count m l = 0.
Proof.
  unfold count. induction 1 as [|[m' e] l Hm _ IH]; intros Hne; [reflexivity|].
  simpl in *. subst m'. destruct m; simpl; try congruence; now apply IH.
Qed.

Lemma only_start_app l1 l2 : only_start l1 -> only_start l2 -> only_start (l1 ++ l2).
Proof. unfold only_start. intros. apply Forall_app. now split. Qed.

Lemma ignored_eqb (x : Signal) :
  ~ In x terminating ->
  Z.eqb x syscall.SIGINT = false /\ Z.eqb x syscall.SIGQUIT = false /\
  Z.eqb x syscall.SIGTERM = false.
Proof.
  unfold terminating, SIGINT, SIGQUIT, SIGTERM. simpl. intros H.
  repeat split; apply Z.eqb_neq; intros ->; tauto.
Qed.

Lemma not_terminating (x : Signal) :
  In x [SIGHUP; SIGUSR1; SIGUSR2] -> ~ In x terminating.
Proof.
  intros [<-|[<-|[<-|[]]]]; simpl; intros [H|[H|[H|[]]]]; discriminate.
Qed.

(** Every sequence of signals either has no terminating signal or has a
    first one. *)
Lemma first_terminating (ch : list Signal) :
  Forall (fun x => ~ In x terminating) ch \/
  exists pre s post,
    ch = pre ++ s :: post /\ Forall (fun x => ~ In x terminating) pre /\
    In s terminating.
Proof.
  induction ch as [|x ch IH]; [now left|].
  destruct (in_dec Z.eq_dec x terminating) as [Hin|Hout].
  - right. now exists [], x, ch.
  - destruct IH as [Hall|(pre & s & post & -> & Hpre & Hs)].
    + left. now constructor.
    + right. exists (x :: pre), s, post. repeat split; auto.
Qed.

Section Facts.

Variable St : Type.
Variable d : Dissembler St.
Implicit Types (w : World St) (s : Signal) (ch pre : list Signal).

Lemma yield_calls w :
  exists l, calls (yield d w) = calls w ++ l /\ only_start l.
Proof.
  unfold yield, run_task, invoke.
  destruct (task w); try (exists []; rewrite app_nil_r; split; [reflexivity|constructor]).
  destruct (sched w).
  - destruct (Start (lifecycle d) (app w)) as [a e]. simpl.
    exists [(MStart, e)]. split; [reflexivity|]. now repeat constructor.
  - exists []. rewrite app_nil_r. split; [reflexivity|constructor].
Qed.

Lemma yield_logs w : logs (yield d w) = logs w.
Proof.
  unfold yield, run_task, invoke. destruct (task w); try reflexivity.
  destruct (sched w); [|reflexivity].
  now destruct (Start (lifecycle d) (app w)).
Qed.

Lemma yield_subs w : subs (yield d w) = subs w.
Proof.
  unfold yield, run_task, invoke. destruct (task w); try reflexivity.
  destruct (sched w); [|reflexivity].
  now destruct (Start (lifecycle d) (app w)).
Qed.

Lemma ignore_all_calls pre w :
  exists l, calls (ignore_all d pre w) = calls w ++ l /\ only_start l.
Proof.
  unfold ignore_all. revert w. induction pre as [|x pre IH]; intros w; simpl.
  - exists []. rewrite app_nil_r. split; [reflexivity|constructor].
  - destruct (IH (ignore d w x)) as (l2 & E2 & H2).
    destruct (yield_calls w) as (l1 & E1 & H1).
    exists (l1 ++ l2). split; [|now apply only_start_app].
    rewrite E2. unfold ignore. simpl.
    now rewrite E1, app_assoc.
Qed.

Lemma ignore_all_logs pre w :
  logs (ignore_all d pre w) = logs w ++ map (LogInfo "signal caught") pre.
Proof.
  unfold ignore_all. revert w. induction pre as [|x pre IH]; intros w; simpl.
  - now rewrite app_nil_r.
  - rewrite IH. unfold ignore. simpl.
    now rewrite yield_logs, <- app_assoc.
Qed.

Lemma ignore_all_subs pre w : subs (ignore_all d pre w) = subs w.
Proof.
  unfold ignore_all. revert w.
  induction pre as [|x pre IH]; intros w; simpl; [reflexivity|].
  rewrite IH. unfold ignore. simpl. apply yield_subs.
Qed.

Lemma shut_down_calls w s :
  exists l1 a l2,
    calls (shut_down d w s)
    = calls w ++ l1 ++ (MStop, snd (Stop (lifecycle d) a)) :: l2 /\
    only_start l1 /\ only_start l2.
Proof.
  unfold shut_down.
  destruct (yield_calls w) as (l1 & E1 & H1).
  set (w1 := ignore d w s).
  unfold invoke. destruct (Stop (lifecycle d) (app w1)) as [a e] eqn:E. simpl.
  match goal with
  | |- context [yield d ?x] => destruct (yield_calls x) as (l2 & E2 & H2)
  end.
  exists l1, (app w1), l2. split; [|now split].
  rewrite E2. simpl calls. rewrite E1, E. now rewrite <- !app_assoc.
Qed.

Lemma shut_down_logs w s :
  logs (shut_down d w s) = logs w ++ [LogInfo "signal caught" s].
Proof.
  unfold shut_down, invoke.
  destruct (Stop (lifecycle d) (app (ignore d w s))) as [a e]. simpl.
  rewrite yield_logs. simpl. now rewrite yield_logs.
Qed.

Lemma shut_down_subs w s : subs (shut_down d w s) = subs w.
Proof.
  unfold shut_down, invoke.
  destruct (Stop (lifecycle d) (app (ignore d w s))) as [a e]. simpl.
  rewrite yield_subs. simpl. now rewrite yield_subs.
Qed.

Lemma Wait_loop_nil w : Wait_loop d [] w = Blocked (yield d w).
Proof. reflexivity. Qed.

Lemma Wait_loop_ignored pre ch w :
  Forall (fun x => ~ In x terminating) pre ->
  Wait_loop d (pre ++ ch) w = Wait_loop d ch (ignore_all d pre w).
Proof.
  intros H. revert w. induction H as [|x pre Hx _ IH]; intros w; [reflexivity|].
  destruct (ignored_eqb Hx) as (E1 & E2 & E3).
  simpl. rewrite E1, E2, E3. apply IH.
Qed.

Lemma Wait_loop_terminating s ch w :
  In s terminating ->
  Wait_loop d (s :: ch) w = Returned (s, None) (shut_down d w s) ch.
Proof.
  unfold terminating, SIGINT, SIGQUIT, SIGTERM, shut_down, ignore.
  intros [<-|[<-|[<-|[]]]]; simpl;
    match goal with
    | |- context [invoke MStop ?f ?x] => destruct (invoke MStop f x)
    end; reflexivity.
Qed.

Lemma Wait_loop_blocked ch w :
  Forall (fun x => ~ In x terminating) ch ->
  Wait_loop d ch w = Blocked (yield d (ignore_all d ch w)).
Proof.
  intros H. rewrite <- (app_nil_r ch) at 1.
  now rewrite Wait_loop_ignored, Wait_loop_nil.
Qed.

Lemma Wait_loop_first pre s post w :
  Forall (fun x => ~ In x terminating) pre -> In s terminating ->
  Wait_loop d (pre ++ s :: post) w
  = Returned (s, None) (shut_down d (ignore_all d pre w) s) post.
Proof.
  intros Hpre Hs. now rewrite Wait_loop_ignored, Wait_loop_terminating.
Qed.

(** The loop is left only on a terminating signal. *)
Lemma Wait_loop_returned ch w r w' rest :
  Wait_loop d ch w = Returned r w' rest ->
  exists pre s,
    ch = pre ++ s :: rest /\ Forall (fun x => ~ In x terminating) pre /\
    In s terminating /\ r = (s, None) /\
    w' = shut_down d (ignore_all d pre w) s.
Proof.
  intros H. destruct (first_terminating ch) as [Hall|(pre & s & post & -> & Hpre & Hs)].
  - rewrite Wait_loop_blocked in H by assumption. discriminate.
  - rewrite Wait_loop_first in H by assumption. inversion H; subst.
    now exists pre, s.
Qed.

End Facts.

(** ** What a whole run of [Wait] and of [Serve] adds to the world *)

Section Runs.

Variable St : Type.
Implicit Types (w : World St) (ch : list Signal).

(** The calls added by [Wait]: calls of [Start] by the goroutine, with
    one call of [Stop] when, and only when, [Wait] has returned. *)
Lemma Wait_calls (d : Dissembler St) ch w :
  exists l,
    calls (world_of (Wait d ch w)) = calls w ++ l /\
    count MInit l = 0 /\ count MReload l = 0 /\
    count MStop l = match Wait d ch w with Returned _ _ _ => 1 | Blocked _ => 0 end.
Proof.
  unfold Wait.
  set (w0 := Notify 2 _ w).
  assert (C0 : calls w0 = calls w) by reflexivity.
  destruct (first_terminating ch) as [Hall|(pre & s & post & -> & Hpre & Hs)].
  - rewrite Wait_loop_blocked by assumption. simpl.
    destruct (ignore_all_calls d ch w0) as (l0 & E0 & H0).
    destruct (yield_calls d (ignore_all d ch w0)) as (l1 & E1 & H1).
    exists (l0 ++ l1). rewrite E1, E0, C0, <- app_assoc. split; [reflexivity|].
    rewrite !count_app.
    now rewrite (@count_only_start MInit _ H0), (@count_only_start MInit _ H1),
      (@count_only_start MReload _ H0), (@count_only_start MReload _ H1),
      (@count_only_start MStop _ H0), (@count_only_start MStop _ H1) by discriminate.
  - rewrite Wait_loop_first by assumption. simpl.
    destruct (ignore_all_calls d pre w0) as (l0 & E0 & H0).
    destruct (shut_down_calls d (ignore_all d pre w0) s) as (l1 & a & l2 & E & H1 & H2).
    exists (l0 ++ l1 ++ (MStop, snd (Stop (lifecycle d) a)) :: l2).
    rewrite E, E0, C0, <- !app_assoc. split; [reflexivity|].
    rewrite !count_app.
    change (count MStop ((MStop, snd (Stop (lifecycle d) a)) :: l2))
      with (S (count MStop l2)).
    change (count MInit ((MStop, snd (Stop (lifecycle d) a)) :: l2))
      with (count MInit l2).
    change (count MReload ((MStop, snd (Stop (lifecycle d) a)) :: l2))
      with (count MReload l2).
    now rewrite (@count_only_start MInit _ H0), (@count_only_start MInit _ H1),
      (@count_only_start MInit _ H2),
      (@count_only_start MReload _ H0), (@count_only_start MReload _ H1),
      (@count_only_start MReload _ H2),
      (@count_only_start MStop _ H0), (@count_only_start MStop _ H1),
      (@count_only_start MStop _ H2) by discriminate.
Qed.

(** The entries added by [Wait]: one "signal caught" for each signal
    received, in order, and nothing else. *)
Lemma Wait_logs (d : Dissembler St) ch w :
  exists received unreceived,
    ch = received ++ unreceived /\
    logs (world_of (Wait d ch w))
    = logs w ++ map (LogInfo "signal caught") received /\
    match Wait d ch w with
    | Returned _ _ rest => rest = unreceived
    | Blocked _ => unreceived = []
    end.
Proof.
  unfold Wait.
  set (w0 := Notify 2 _ w).
  assert (C0 : logs w0 = logs w) by reflexivity.
  destruct (first_terminating ch) as [Hall|(pre & s & post & -> & Hpre & Hs)].
  - rewrite Wait_loop_blocked by assumption. simpl.
    exists ch, []. rewrite app_nil_r, yield_logs, ignore_all_logs, C0. auto.
  - rewrite Wait_loop_first by assumption. simpl.
    exists (pre ++ [s]), post.
    rewrite shut_down_logs, ignore_all_logs, C0, map_app, <- !app_assoc. auto.
Qed.

Lemma Wait_subs (d : Dissembler St) ch w :
  subs (world_of (Wait d ch w))
  = subs w ++ [(2, [SIGHUP; SIGINT; SIGQUIT; SIGTERM; SIGUSR1; SIGUSR2])].
Proof.
  unfold Wait.
  set (w0 := Notify 2 _ w).
  destruct (first_terminating ch) as [Hall|(pre & s & post & -> & Hpre & Hs)].
  - rewrite Wait_loop_blocked by assumption. simpl.
    now rewrite yield_subs, ignore_all_subs.
  - rewrite Wait_loop_first by assumption. simpl.
    now rewrite shut_down_subs, ignore_all_subs.
Qed.

(** The error of [Wait] is [nil] whenever it returns. *)
Lemma Wait_error (d : Dissembler St) ch w r w' rest :
  Wait d ch w = Returned r w' rest -> snd r = None.
Proof.
  unfold Wait. intros H. apply Wait_loop_returned in H.
  now destruct H as (pre & s & _ & _ & _ & -> & _).
Qed.

(** [Serve] when [Init] fails, and when it succeeds. *)
Lemma Serve_Init_failed (lc : Lifecycle St) ch w m :
  snd (Init lc (app w)) = Some m ->
  Serve lc ch w
  = ServeReturned (Some m)
      (set_err (Some m) (fst (invoke MInit (Init lc) w))).
Proof.
  unfold Serve, Dissembler_Serve, invoke. simpl.
  destruct (Init lc (app w)) as [a e]. simpl. now intros ->.
Qed.

Lemma Serve_Init_ok (lc : Lifecycle St) ch w :
  snd (Init lc (app w)) = None ->
  Serve lc ch w
  = after_Wait (Wait {| lifecycle := lc |} ch (initialised {| lifecycle := lc |} w)).
Proof.
  unfold Serve, Dissembler_Serve, initialised, invoke. simpl.
  destruct (Init lc (app w)) as [a e]. simpl. now intros ->.
Qed.

Lemma initialised_calls (lc : Lifecycle St) w :
  calls (initialised {| lifecycle := lc |} w)
  = calls w ++ [(MInit, snd (Init lc (app w)))].
Proof.
  unfold initialised, invoke. simpl. now destruct (Init lc (app w)).
Qed.

Lemma initialised_logs (lc : Lifecycle St) w :
  logs (initialised {| lifecycle := lc |} w) = logs w.
Proof.
  unfold initialised, invoke. simpl. now destruct (Init lc (app w)).
Qed.

Lemma initialised_subs (lc : Lifecycle St) w :
  subs (initialised {| lifecycle := lc |} w) = subs w.
Proof.
  unfold initialised, invoke. simpl. now destruct (Init lc (app w)).
Qed.

Lemma after_Wait_calls (r : WaitResult St) :
  calls (serve_world (after_Wait r)) = calls (world_of r).
Proof. destruct r as [[sg [m|]] w rest|w]; reflexivity. Qed.

(** The calls of a whole run of [Serve]: [Init], then what [Wait] adds,
    and nothing after a failed [Init]. *)
Lemma Serve_calls (lc : Lifecycle St) ch w :
  exists l,
    calls (serve_world (Serve lc ch w))
    = calls w ++ (MInit, snd (Init lc (app w))) :: l /\
    count MInit l = 0 /\ count MReload l = 0 /\ count MStop l <= 1 /\
    (snd (Init lc (app w)) <> None -> l = []).
Proof.
  destruct (snd (Init lc (app w))) as [m|] eqn:E.
  - rewrite (Serve_Init_failed lc ch w E). exists []. simpl.
    unfold invoke. destruct (Init lc (app w)) as [a e]. simpl in *. subst e.
    repeat split; auto.
  - rewrite (Serve_Init_ok lc ch w E), after_Wait_calls.
    destruct (Wait_calls {| lifecycle := lc |} ch (initialised {| lifecycle := lc |} w))
      as (l & El & H1 & H2 & H3).
    exists l. rewrite El, initialised_calls, E, <- app_assoc.
    repeat split; auto.
    + rewrite H3. destruct (Wait _ _ _); lia.
    + congruence.
Qed.

(** The entries of a whole run of [Serve]: the signals caught. *)
Lemma Serve_logs (lc : Lifecycle St) ch w :
  exists received,
    logs (serve_world (Serve lc ch w))
    = logs w ++ map (LogInfo "signal caught") received.
Proof.
  destruct (snd (Init lc (app w))) as [m|] eqn:E.
  - rewrite (Serve_Init_failed lc ch w E). exists []. simpl.
    unfold invoke. destruct (Init lc (app w)). simpl. now rewrite app_nil_r.
  - rewrite (Serve_Init_ok lc ch w E).
    destruct (Wait_logs {| lifecycle := lc |} ch (initialised {| lifecycle := lc |} w))
      as (rcv & unr & _ & Hl & _).
    exists rcv. rewrite initialised_logs in Hl. rewrite <- Hl.
    destruct (Wait _ _ _) as [[sg e] w1 rest|w1] eqn:EW; [|reflexivity].
    apply Wait_error in EW. simpl in EW. now subst e.
Qed.

(** The loop does not look at the [Reloader] of the lifecycle. *)
Lemma Wait_loop_Reloader (lc : Lifecycle St) (r : option (Reloader St)) ch w :
  Wait_loop {| lifecycle := with_Reloader lc r |} ch w
  = Wait_loop {| lifecycle := lc |} ch w.
Proof.
  revert w. induction ch as [|x ch IH]; intros w; [reflexivity|].
  simpl. rewrite IH. reflexivity.
Qed.

End Runs.

(** ** The shutdown coordinator *)

(** C1. For every signal [s] among INT, QUIT, TERM and every lifecycle:
    when [s] is the first terminating signal that the loop of [Wait]
    receives (the signals [pre] received before it are not terminating),
    [Wait] calls [Stop] exactly once (the calls it adds to the record are
    calls of [Start] by the goroutine and one call of [Stop]) and returns
    [(s, nil)], whatever [Stop] returned; and whenever [Wait] returns, it
    does so on such a signal. *)
Theorem Wait_returns_first_terminating :
  forall (St : Type) (d : Dissembler St) (pre post : list Signal) (s : Signal)
         (w : World St),
    In s [SIGINT; SIGQUIT; SIGTERM] ->
    Forall (fun x => ~ In x [SIGINT; SIGQUIT; SIGTERM]) pre ->
    (exists w' l1 a l2,
        Wait d (pre ++ s :: post) w = Returned (s, None) w' post /\
        calls w' = calls w ++ l1 ++ (MStop, snd (Stop (lifecycle d) a)) :: l2 /\
        only_start l1 /\ only_start l2 /\
        count MStop (l1 ++ (MStop, snd (Stop (lifecycle d) a)) :: l2) = 1) /\
    (forall ch r w' rest,
        Wait d ch w = Returned r w' rest ->
        exists pre' s',
          ch = pre' ++ s' :: rest /\ In s' [SIGINT; SIGQUIT; SIGTERM] /\
          Forall (fun x => ~ In x [SIGINT; SIGQUIT; SIGTERM]) pre' /\
          r = (s', None) /\ count MStop (calls w') = count MStop (calls w) + 1).
Proof.
  intros St d pre post s w Hs Hpre. fold terminating in *. split.
  - unfold Wait. rewrite Wait_loop_first by assumption.
    match goal with
    | |- context [shut_down d ?x s] =>
        destruct (shut_down_calls d x s) as (l1 & a & l2 & E & H1 & H2);
        destruct (ignore_all_calls d pre (Notify 2 [syscall.SIGHUP; syscall.SIGINT;
          syscall.SIGQUIT; syscall.SIGTERM; syscall.SIGUSR1; syscall.SIGUSR2] w))
          as (l0 & E0 & H0)
    end.
    eexists _, (l0 ++ l1), a, l2. split; [reflexivity|].
    split; [|split; [now apply only_start_app|split; [assumption|]]].
    + rewrite E, E0. simpl. now rewrite <- !app_assoc.
    + rewrite !count_app.
      change (count MStop ((MStop, snd (Stop (lifecycle d) a)) :: l2))
        with (S (count MStop l2)).
      rewrite (@count_only_start MStop _ H0), (@count_only_start MStop _ H1),
        (@count_only_start MStop _ H2) by discriminate.
      reflexivity.
  - intros ch r w' rest H. unfold Wait in H.
    apply Wait_loop_returned in H.
    destruct H as (pre' & s' & -> & Hp & Hs' & -> & ->).
    exists pre', s'. repeat split; try assumption.
    match goal with
    | |- context [shut_down d ?x s'] =>
        destruct (shut_down_calls d x s') as (l1 & a & l2 & E & H1 & H2)
    end.
    rewrite E.
    match goal with
    | |- context [ignore_all d pre' ?x] =>
        destruct (ignore_all_calls d pre' x) as (l0 & E0 & H0)
    end.
    rewrite E0. simpl calls. rewrite !count_app.
    change (count MStop ((MStop, snd (Stop (lifecycle d) a)) :: l2))
      with (S (count MStop l2)).
    rewrite (@count_only_start MStop _ H0), (@count_only_start MStop _ H1),
      (@count_only_start MStop _ H2) by discriminate.
    lia.
Qed.

Lemma Wait_returns_first_terminating_witness :
  In SIGTERM [SIGINT; SIGQUIT; SIGTERM] /\
  Forall (fun x => ~ In x [SIGINT; SIGQUIT; SIGTERM]) [SIGHUP] /\
  exists w' l1 a l2,
    Wait {| lifecycle := failing |} ([SIGHUP] ++ SIGTERM :: [SIGINT]) (fresh 0 0)
    = Returned (SIGTERM, None) w' [SIGINT] /\
    calls w' = calls (fresh 0 0) ++ l1 ++ (MStop, snd (Stop failing a)) :: l2 /\
    only_start l1 /\ only_start l2 /\
    count MStop (l1 ++ (MStop, snd (Stop failing a)) :: l2) = 1.
Proof.
  assert (H1 : In SIGTERM [SIGINT; SIGQUIT; SIGTERM]) by (simpl; auto).
  assert (H2 : Forall (fun x => ~ In x [SIGINT; SIGQUIT; SIGTERM]) [SIGHUP]).
  { repeat constructor. simpl. intros [H|[H|[H|[]]]]; discriminate. }
  split; [exact H1|split; [exact H2|]].
  exact (proj1 (Wait_returns_first_terminating {| lifecycle := failing |}
                  [SIGINT] (fresh 0 0) H1 H2)).
Defined.

(** C2. For every sequence of signals and every lifecycle, a call of
    [Serve] makes at most one call of [Stop].  When the sequence has a
    terminating signal, [Wait] returns the first one [s] after one call of
    [Stop], the signals logged as caught are those up to [s], and those
    after [s] are left unreceived; so does [Serve] when [Init] succeeds.
    In particular INT then TERM raised in a burst are both held by the
    channel of capacity 2, and [Wait] stops once and returns INT, leaving
    TERM unreceived. *)
Theorem at_most_one_terminating_signal_acted_upon :
  forall (St : Type) (lc : Lifecycle St) (ch : list Signal) (w : World St),
    count MStop (calls (serve_world (Serve lc ch w))) <= count MStop (calls w) + 1 /\
    (forall pre s post,
        ch = pre ++ s :: post ->
        Forall (fun x => ~ In x [SIGINT; SIGQUIT; SIGTERM]) pre ->
        In s [SIGINT; SIGQUIT; SIGTERM] ->
        (exists w',
            Wait {| lifecycle := lc |} ch w = Returned (s, None) w' post /\
            count MStop (calls w') = count MStop (calls w) + 1 /\
            logs w' = logs w ++ map (LogInfo "signal caught") (pre ++ [s])) /\
        (snd (Init lc (app w)) = None ->
         exists w',
           Serve lc ch w = ServeReturned None w' /\
           count MStop (calls w') = count MStop (calls w) + 1 /\
           logs w' = logs w ++ map (LogInfo "signal caught") (pre ++ [s]))) /\
    signal.relay_all (2, [SIGHUP; SIGINT; SIGQUIT; SIGTERM; SIGUSR1; SIGUSR2])
      [] [SIGINT; SIGTERM] = [SIGINT; SIGTERM] /\
    (exists w',
        Wait {| lifecycle := lc |} [SIGINT; SIGTERM] w
        = Returned (SIGINT, None) w' [SIGTERM] /\
        count MStop (calls w') = count MStop (calls w) + 1).
Proof.
  intros St lc ch w.
  assert (W : forall pre s post w0,
             Forall (fun x => ~ In x terminating) pre -> In s terminating ->
             exists w',
               Wait {| lifecycle := lc |} (pre ++ s :: post) w0
               = Returned (s, None) w' post /\
               count MStop (calls w') = count MStop (calls w0) + 1 /\
               logs w' = logs w0 ++ map (LogInfo "signal caught") (pre ++ [s])).
  { intros pre s post w0 Hpre Hs.
    destruct (Wait_calls {| lifecycle := lc |} (pre ++ s :: post) w0)
      as (l & El & _ & _ & Hc).
    destruct (Wait_logs {| lifecycle := lc |} (pre ++ s :: post) w0)
      as (rcv & unr & Hch & Hl & Hr).
    revert El Hc Hch Hl Hr. unfold Wait.
    rewrite Wait_loop_first by assumption. simpl.
    intros El Hc Hch Hl ->. eexists. split; [reflexivity|].
    split.
    - rewrite El, count_app, Hc. reflexivity.
    - rewrite shut_down_logs, ignore_all_logs, map_app, <- app_assoc. reflexivity. }
  split; [|split; [|split]].
  - destruct (Serve_calls lc ch w) as (l & El & _ & _ & Hc & _).
    rewrite El, count_app.
    change (count MStop ((MInit, snd (Init lc (app w))) :: l)) with (count MStop l).
    lia.
  - intros pre s post -> Hpre Hs. split; [now apply W|].
    intros Hinit. rewrite (Serve_Init_ok lc _ w Hinit).
    destruct (W pre s post (initialised {| lifecycle := lc |} w) Hpre Hs)
      as (w' & -> & Hc & Hl).
    simpl. exists w'. split; [reflexivity|]. split.
    + rewrite Hc, initialised_calls, count_app.
      change (count MStop [(MInit, snd (Init lc (app w)))]) with 0. lia.
    + rewrite Hl, initialised_logs. reflexivity.
  - reflexivity.
  - destruct (W [] SIGINT [SIGTERM] w) as (w' & E & Hc & _).
    + constructor.
    + simpl; auto.
    + exists w'. split; [exact E|exact Hc].
Qed.

Lemma at_most_one_terminating_signal_acted_upon_witness :
  count MStop (calls (serve_world (Serve failing [SIGINT; SIGTERM] (fresh 0 1))))
  <= count MStop (calls (fresh 0 1)) + 1 /\
  exists w',
    Serve failing [SIGINT; SIGTERM] (fresh 0 1) = ServeReturned None w' /\
    count MStop (calls w') = count MStop (calls (fresh 0 1)) + 1 /\
    logs w' = logs (fresh 0 1) ++ map (LogInfo "signal caught") ([] ++ [SIGINT]).
Proof.
  destruct (at_most_one_terminating_signal_acted_upon failing [SIGINT; SIGTERM]
              (fresh 0 1)) as (H1 & H2 & _).
  split; [exact H1|].
  refine (proj2 (H2 [] SIGINT [SIGTERM] eq_refl _ _) eq_refl).
  - constructor.
  - simpl. auto.
Defined.

(** C3. For every lifecycle whose [Init] returns an error [m], [Serve]
    returns that error; the only call made is the one of [Init]: [Start]
    and [Stop] are not invoked and the goroutine is not spawned; the loop
    of [Wait] is not entered: no subscription is made and no signal is
    logged as caught. *)
Theorem Serve_returns_Init_error :
  forall (St : Type) (lc : Lifecycle St) (ch : list Signal) (w : World St)
         (m : string),
    snd (Init lc (app w)) = Some m ->
    exists w',
      Serve lc ch w = ServeReturned (Some m) w' /\
      calls w' = calls w ++ [(MInit, Some m)] /\
      count MStart (calls w') = count MStart (calls w) /\
      count MStop (calls w') = count MStop (calls w) /\
      task w' = task w /\ subs w' = subs w /\ logs w' = logs w /\
      app w' = fst (Init lc (app w)).
Proof.
  intros St lc ch w m H. rewrite (Serve_Init_failed lc ch w H).
  eexists. split; [reflexivity|].
  unfold invoke. destruct (Init lc (app w)) as [a e]. simpl in *. subst e.
  rewrite !count_app. simpl. repeat split; auto.
Qed.

Lemma Serve_returns_Init_error_witness :
  snd (Init unconfigured (app (fresh 7 0))) = Some "no config"%string /\
  exists w',
    Serve unconfigured [SIGHUP; SIGTERM] (fresh 7 0)
    = ServeReturned (Some "no config"%string) w' /\
    calls w' = calls (fresh 7 0) ++ [(MInit, Some "no config"%string)] /\
    count MStart (calls w') = count MStart (calls (fresh 7 0)) /\
    count MStop (calls w') = count MStop (calls (fresh 7 0)) /\
    task w' = task (fresh 7 0) /\ subs w' = subs (fresh 7 0) /\
    logs w' = logs (fresh 7 0) /\
    app w' = fst (Init unconfigured (app (fresh 7 0))).
Proof.
  split; [reflexivity|].
  exact (Serve_returns_Init_error unconfigured [SIGHUP; SIGTERM] (fresh 7 0)
           eq_refl).
Defined.

(** C4. For every lifecycle whose [Init] succeeds: [Serve] ends with the
    result of [Wait]; whatever [Wait] returns, an error included, the end
    of [Serve] returns [nil]; so once [Wait] returns, [Serve] returns
    [nil], and [Serve] never returns an error. *)
Theorem Serve_returns_nil_once_Wait_returns :
  forall (St : Type) (lc : Lifecycle St) (ch : list Signal) (w : World St),
    snd (Init lc (app w)) = None ->
    Serve lc ch w
    = after_Wait (Wait {| lifecycle := lc |} ch (initialised {| lifecycle := lc |} w)) /\
    (forall (r : Signal * error) (w1 : World St) (rest : list Signal),
        serve_return (after_Wait (Returned r w1 rest)) = Some None) /\
    (forall r w1 rest,
        Wait {| lifecycle := lc |} ch (initialised {| lifecycle := lc |} w)
        = Returned r w1 rest ->
        exists w', Serve lc ch w = ServeReturned None w') /\
    (forall m, serve_return (Serve lc ch w) <> Some (Some m)).
Proof.
  intros St lc ch w H. rewrite (Serve_Init_ok lc ch w H).
  split; [reflexivity|]. split; [|split].
  - intros [sg [m|]] w1 rest; reflexivity.
  - intros [sg e] w1 rest ->. destruct e; eexists; reflexivity.
  - intros m. destruct (Wait _ _ _) as [[sg [m'|]] w1 rest|w1]; discriminate.
Qed.

Lemma Serve_returns_nil_once_Wait_returns_witness :
  snd (Init failing (app (fresh 0 0))) = None /\
  serve_return (Serve failing [SIGUSR1; SIGQUIT] (fresh 0 0)) = Some None.
Proof.
  split; [reflexivity|].
  destruct (Serve_returns_nil_once_Wait_returns failing [SIGUSR1; SIGQUIT]
              (fresh 0 0) eq_refl) as (_ & _ & H & _).
  destruct (H _ _ _ eq_refl) as (w' & E).
  rewrite E. reflexivity.
Defined.

(** C5. For every lifecycle that is not a [Reloader] and every sequence
    made of HUP, USR1 and USR2 only: [Wait] does not return, it is blocked
    in the receive with every signal logged as caught and no call of
    [Stop]; a terminating signal after the sequence makes [Wait] call
    [Stop] exactly once and return it.  With HUP three times then TERM:
    after none, one, two and three HUP there is no call of [Stop] and
    [Wait] has not returned; after the TERM there is exactly one. *)
Theorem ignored_signals_never_stop :
  forall (St : Type) (d : Dissembler St) (ch : list Signal) (w : World St),
    as_Reloader (lifecycle d) = None ->
    Forall (fun x => In x [SIGHUP; SIGUSR1; SIGUSR2]) ch ->
    (exists w',
        Wait d ch w = Blocked w' /\
        count MStop (calls w') = count MStop (calls w) /\
        logs w' = logs w ++ map (LogInfo "signal caught") ch) /\
    (forall s post,
        In s [SIGINT; SIGQUIT; SIGTERM] ->
        exists w',
          Wait d (ch ++ s :: post) w = Returned (s, None) w' post /\
          count MStop (calls w') = count MStop (calls w) + 1) /\
    Forall (fun k =>
              exists w',
                Wait d (repeat SIGHUP k) w = Blocked w' /\
                count MStop (calls w') = count MStop (calls w))
           [0; 1; 2; 3] /\
    (exists w',
        Wait d [SIGHUP; SIGHUP; SIGHUP; SIGTERM] w = Returned (SIGTERM, None) w' [] /\
        count MStop (calls w') = count MStop (calls w) + 1).
Proof.
  intros St d ch w _ Hch.
  assert (B : forall l,
             Forall (fun x => In x [SIGHUP; SIGUSR1; SIGUSR2]) l ->
             exists w',
               Wait d l w = Blocked w' /\
               count MStop (calls w') = count MStop (calls w) /\
               logs w' = logs w ++ map (LogInfo "signal caught") l).
  { intros l Hl.
    assert (Hi : Forall (fun x => ~ In x terminating) l).
    { eapply Forall_impl; [|exact Hl]. apply not_terminating. }
    destruct (Wait_calls d l w) as (c & Ec & _ & _ & Hc).
    destruct (Wait_logs d l w) as (rcv & unr & El & Hlog & Hr).
    revert Ec Hc El Hlog Hr. unfold Wait. rewrite Wait_loop_blocked by assumption.
    simpl. intros Ec Hc El Hlog ->. rewrite app_nil_r in El. subst rcv.
    eexists. split; [reflexivity|]. split; [|exact Hlog].
    rewrite Ec, count_app, Hc. lia. }
  assert (R : forall l s post,
             Forall (fun x => In x [SIGHUP; SIGUSR1; SIGUSR2]) l ->
             In s terminating ->
             exists w',
               Wait d (l ++ s :: post) w = Returned (s, None) w' post /\
               count MStop (calls w') = count MStop (calls w) + 1).
  { intros l s post Hl Hs.
    assert (Hi : Forall (fun x => ~ In x terminating) l).
    { eapply Forall_impl; [|exact Hl]. apply not_terminating. }
    destruct (Wait_calls d (l ++ s :: post) w) as (c & Ec & _ & _ & Hc).
    revert Ec Hc. unfold Wait. rewrite Wait_loop_first by assumption.
    simpl. intros Ec Hc. eexists. split; [reflexivity|].
    rewrite Ec, count_app, Hc. reflexivity. }
  assert (Hup : forall k, Forall (fun x => In x [SIGHUP; SIGUSR1; SIGUSR2]) (repeat SIGHUP k)).
  { intros k. apply Forall_forall. intros x Hx. apply repeat_spec in Hx. subst x.
    simpl. auto. }
  split; [now apply B|]. split; [intros s post Hs; now apply R|]. split.
  - repeat constructor;
      match goal with
      | |- exists w', Wait d (repeat SIGHUP ?k) w = _ /\ _ =>
          destruct (B (repeat SIGHUP k) (Hup k)) as (w' & E & Hc & _);
          exists w'; split; [exact E|exact Hc]
      end.
  - apply (R (repeat SIGHUP 3) SIGTERM [] (Hup 3)). simpl. auto.
Qed.

Lemma ignored_signals_never_stop_witness :
  as_Reloader (lifecycle {| lifecycle := recorder |}) = None /\
  Forall (fun x => In x [SIGHUP; SIGUSR1; SIGUSR2]) [SIGUSR2; SIGHUP; SIGUSR1] /\
  exists w',
    Wait {| lifecycle := recorder |} [SIGUSR2; SIGHUP; SIGUSR1] (fresh [] 1)
    = Blocked w' /\
    count MStop (calls w') = count MStop (calls (fresh (St := list string) [] 1)) /\
    logs w'
    = logs (fresh (St := list string) [] 1)
      ++ map (LogInfo "signal caught") [SIGUSR2; SIGHUP; SIGUSR1].
Proof.
  assert (H : Forall (fun x => In x [SIGHUP; SIGUSR1; SIGUSR2])
                [SIGUSR2; SIGHUP; SIGUSR1]).
  { repeat (apply Forall_cons; [simpl; tauto|]). apply Forall_nil. }
  split; [reflexivity|]. split; [exact H|].
  exact (proj1 (ignored_signals_never_stop {| lifecycle := recorder |}
                  (fresh [] 1) eq_refl H)).
Defined.

(** C6. What [Serve] returns does not depend on [Start]: for two
    lifecycles with the same [Init] and the same [Stop], whatever their
    [Start] do and return, whenever the goroutine is scheduled in each run,
    on the same signals and from the same application state, [Serve]
    returns the same value in both runs, or returns in neither. *)
Theorem Serve_return_independent_of_Start :
  forall (St : Type) (lc1 lc2 : Lifecycle St) (ch : list Signal)
         (w1 w2 : World St),
    (forall a, Init lc1 a = Init lc2 a) ->
    (forall a, Stop lc1 a = Stop lc2 a) ->
    app w1 = app w2 ->
    serve_return (Serve lc1 ch w1) = serve_return (Serve lc2 ch w2).
Proof.
  intros St lc1 lc2 ch w1 w2 HI _ Ha.
  assert (E : snd (Init lc1 (app w1)) = snd (Init lc2 (app w2)))
    by now rewrite HI, Ha.
  destruct (snd (Init lc2 (app w2))) as [m|] eqn:E2.
  - now rewrite (Serve_Init_failed lc1 ch w1 E), (Serve_Init_failed lc2 ch w2 E2).
  - rewrite (Serve_Init_ok lc1 ch w1 E), (Serve_Init_ok lc2 ch w2 E2).
    unfold Wait.
    destruct (first_terminating ch) as [Hall|(pre & s & post & -> & Hpre & Hs)].
    + now rewrite !Wait_loop_blocked by assumption.
    + now rewrite !Wait_loop_first by assumption.
Qed.

Lemma Serve_return_independent_of_Start_witness :
  (forall a, Init failing a = Init starting a) /\
  (forall a, Stop failing a = Stop starting a) /\
  app (fresh 0 0) = app (fresh 0 5) /\
  snd (Start failing 1) <> snd (Start starting 1) /\
  serve_return (Serve failing [SIGHUP; SIGINT] (fresh 0 0))
  = serve_return (Serve starting [SIGHUP; SIGINT] (fresh 0 5)).
Proof.
  split; [reflexivity|]. split; [reflexivity|]. split; [reflexivity|].
  split; [discriminate|].
  exact (Serve_return_independent_of_Start failing starting [SIGHUP; SIGINT]
           (fresh 0 0) (fresh 0 5) (fun a => eq_refl) (fun a => eq_refl) eq_refl).
Defined.

(** C7, as amended.  For the lifecycle that records the name of each
    callback it runs, and a single INT: under every scheduling [n] of the
    goroutine, [Wait] returns INT and [Serve] returns [nil]; and when the
    goroutine has run [Start] before the loop receives the INT ([n = 0]),
    the recorded order is exactly [Init, Start, Stop]. *)
Theorem recorded_order_on_INT :
  forall n : nat,
    exists w1 w',
      Wait {| lifecycle := recorder |} [SIGINT]
        (initialised {| lifecycle := recorder |} (fresh [] n))
      = Returned (SIGINT, None) w1 [] /\
      Serve recorder [SIGINT] (fresh [] n) = ServeReturned None w' /\
      (n = 0 -> app w' = ["Init"; "Start"; "Stop"]%string).
Proof.
  intros [|[|n]]; do 2 eexists;
    (split; [reflexivity|split; [reflexivity|]]); simpl;
    intros H; (reflexivity || discriminate H).
Qed.

Lemma recorded_order_on_INT_witness :
  app (serve_world (Serve recorder [SIGINT] (fresh [] 0)))
  = ["Init"; "Start"; "Stop"]%string.
Proof.
  destruct (recorded_order_on_INT 0) as (w1 & w' & _ & E & H).
  rewrite E. exact (H eq_refl).
Defined.

(** C7, as stated, fails when the goroutine runs [Start] after the loop has
    handled the INT: the recorded order is then [Init, Stop, Start]. *)
Lemma recorded_order_Start_after_Stop :
  Serve recorder [SIGINT] (fresh [] 1)
  = ServeReturned None
      (mkWorld ["Init"; "Stop"; "Start"]%string
         [(MInit, None); (MStop, None); (MStart, None)]
         [LogInfo "signal caught" SIGINT]
         [(2, [SIGHUP; SIGINT; SIGQUIT; SIGTERM; SIGUSR1; SIGUSR2])]
         None (Finished None) 0) /\
  app (serve_world (Serve recorder [SIGINT] (fresh [] 1)))
  <> ["Init"; "Start"; "Stop"]%string.
Proof.
  split; [reflexivity|]. simpl. discriminate.
Qed.

(** C8. Whatever the lifecycle and the signals, [Wait] makes exactly one
    subscription: a channel of capacity 2, which is at least 2, for the
    six signals HUP, INT, QUIT, TERM, USR1, USR2, which are distinct; a
    signal is asked for exactly when it is one of the six.  So does
    [Serve] when [Init] succeeds. *)
Theorem Wait_subscribes_six_signals_buffer_two :
  forall (St : Type) (d : Dissembler St) (ch : list Signal) (w : World St),
    exists sub : Subscription,
      subs (world_of (Wait d ch w)) = subs w ++ [sub] /\
      fst sub = 2 /\ 2 <= fst sub /\
      snd sub = [SIGHUP; SIGINT; SIGQUIT; SIGTERM; SIGUSR1; SIGUSR2] /\
      NoDup (snd sub) /\ List.length (snd sub) = 6 /\
      (forall s,
          In s (snd sub)
          <-> s = SIGHUP \/ s = SIGINT \/ s = SIGQUIT \/ s = SIGTERM \/
              s = SIGUSR1 \/ s = SIGUSR2) /\
      (snd (Init (lifecycle d) (app w)) = None ->
       subs (serve_world (Serve (lifecycle d) ch w)) = subs w ++ [sub]).
Proof.
  intros St d ch w.
  exists (2, [SIGHUP; SIGINT; SIGQUIT; SIGTERM; SIGUSR1; SIGUSR2]).
  split; [apply Wait_subs|].
  split; [reflexivity|]. split; [simpl; lia|]. split; [reflexivity|]. split.
  - simpl. repeat constructor; simpl; intuition discriminate.
  - split; [reflexivity|]. split.
    + intros s. simpl. intuition congruence.
    + intros Hok. rewrite (Serve_Init_ok (lifecycle d) ch w Hok).
      pose proof (Wait_subs {| lifecycle := lifecycle d |} ch
                    (initialised {| lifecycle := lifecycle d |} w)) as H.
      rewrite initialised_subs in H.
      etransitivity; [|exact H].
      destruct (Wait _ _ _) as [[sg [m|]] w1 rest|w1]; reflexivity.
Qed.

Lemma Wait_subscribes_six_signals_buffer_two_witness :
  exists sub : Subscription,
    subs (serve_world (Serve recorder [SIGUSR1; SIGQUIT] (fresh [] 0))) = [sub] /\
    fst sub = 2 /\
    snd sub = [SIGHUP; SIGINT; SIGQUIT; SIGTERM; SIGUSR1; SIGUSR2].
Proof.
  destruct (Wait_subscribes_six_signals_buffer_two {| lifecycle := recorder |}
              [SIGUSR1; SIGQUIT] (fresh [] 0))
    as (sub & _ & Hc & _ & Hs & _ & _ & _ & H).
  exists sub. split; [exact (H eq_refl)|]. split; [exact Hc|exact Hs].
Defined.

(** C9. For every lifecycle, one that is a [Reloader] included, and every
    sequence of signals: neither [Serve] nor [Wait] ever calls [Reload]
    (no call of it is recorded), and what they do is the same whatever the
    lifecycle answers to the query for [Reloader]: the capability is not
    used. *)
Theorem Reload_is_never_invoked :
  forall (St : Type) (lc : Lifecycle St) (ch : list Signal) (w : World St),
    count MReload (calls (serve_world (Serve lc ch w))) = count MReload (calls w) /\
    count MReload (calls (world_of (Wait {| lifecycle := lc |} ch w)))
    = count MReload (calls w) /\
    (forall r : option (Reloader St),
        Serve (with_Reloader lc r) ch w = Serve (with_Reloader lc None) ch w /\
        Wait {| lifecycle := with_Reloader lc r |} ch w
        = Wait {| lifecycle := with_Reloader lc None |} ch w).
Proof.
  intros St lc ch w. split; [|split].
  - destruct (Serve_calls lc ch w) as (l & E & _ & H & _).
    rewrite E, count_app.
    change (count MReload ((MInit, snd (Init lc (app w))) :: l))
      with (count MReload l).
    lia.
  - destruct (Wait_calls {| lifecycle := lc |} ch w) as (l & E & _ & H & _).
    rewrite E, count_app. lia.
  - intros r.
    assert (HW : forall w0,
               Wait {| lifecycle := with_Reloader lc r |} ch w0
               = Wait {| lifecycle := with_Reloader lc None |} ch w0).
    { intros w0. unfold Wait. now rewrite !Wait_loop_Reloader. }
    split; [|apply HW].
    unfold Serve, Dissembler_Serve, invoke. simpl.
    destruct (Init lc (app w)) as [a [m|]]; [reflexivity|].
    now rewrite HW.
Qed.

Lemma Reload_is_never_invoked_witness :
  as_Reloader reloadable <> None /\
  count MReload
    (calls (serve_world (Serve reloadable [SIGHUP; SIGUSR2; SIGTERM] (fresh 0 0))))
  = 0 /\
  app (serve_world (Serve reloadable [SIGHUP; SIGUSR2; SIGTERM] (fresh 0 0))) = 0.
Proof.
  split; [discriminate|].
  split; [|reflexivity].
  exact (proj1 (Reload_is_never_invoked reloadable [SIGHUP; SIGUSR2; SIGTERM]
                  (fresh 0 0))).
Defined.

(** C10. For every lifecycle and every sequence of signals: whenever
    [Wait] returns, the error it returns is [nil]; so [Serve] never writes
    the entry "Unable to finish waiting for Dissembler to shutdown": the
    entries of a run of [Serve] are the signals caught, none is an
    error. *)
Theorem Wait_error_is_always_nil :
  forall (St : Type) (lc : Lifecycle St) (ch : list Signal) (w : World St),
    (forall r w' rest,
        Wait {| lifecycle := lc |} ch w = Returned r w' rest -> snd r = None) /\
    (exists received,
        logs (serve_world (Serve lc ch w))
        = logs w ++ map (LogInfo "signal caught") received) /\
    filter is_error (logs (serve_world (Serve lc ch w))) = filter is_error (logs w) /\
    (forall m,
        In (LogError "Unable to finish waiting for Dissembler to shutdown" m)
           (logs (serve_world (Serve lc ch w))) ->
        In (LogError "Unable to finish waiting for Dissembler to shutdown" m)
           (logs w)).
Proof.
  intros St lc ch w.
  destruct (Serve_logs lc ch w) as (rcv & E).
  split; [|split; [|split]].
  - intros r w' rest H. exact (Wait_error _ _ _ H).
  - now exists rcv.
  - rewrite E, filter_app.
    assert (F : filter is_error (map (LogInfo "signal caught") rcv) = []).
    { clear E. induction rcv as [|x rcv IH]; [reflexivity|exact IH]. }
    now rewrite F, app_nil_r.
  - intros m. rewrite E, in_app_iff. intros [H|H]; [exact H|].
    apply in_map_iff in H. destruct H as (x & Hx & _). discriminate.
Qed.

Lemma Wait_error_is_always_nil_witness :
  snd (SIGQUIT, @None string) = None /\
  logs (serve_world (Serve failing [SIGUSR1; SIGQUIT; SIGHUP] (fresh 0 3)))
  = [LogInfo "signal caught" SIGUSR1; LogInfo "signal caught" SIGQUIT].
Proof.
  destruct (Wait_error_is_always_nil failing [SIGUSR1; SIGQUIT; SIGHUP] (fresh 0 3))
    as (H & _).
  split; [|reflexivity].
  exact (H (SIGQUIT, None) _ _ eq_refl).
Defined.

(** ** The goroutine and the main thread *)

Section Goroutine.

Variable St : Type.
Variable d : Dissembler St.
Implicit Types (w : World St) (s : Signal) (ch pre : list Signal).

Lemma run_task_fields w :
  app (run_task d w) = fst (Start (lifecycle d) (app w)) /\
  calls (run_task d w) = calls w ++ [(MStart, snd (Start (lifecycle d) (app w)))] /\
  task (run_task d w) = Finished (snd (Start (lifecycle d) (app w))) /\
  err (run_task d w) = snd (Start (lifecycle d) (app w)).
Proof.
  unfold run_task, invoke.
  destruct (Start (lifecycle d) (app w)) as [a [m|]]; simpl; auto.
Qed.

Lemma invoke_Stop_fields w :
  let w' := fst (invoke MStop (Stop (lifecycle d)) w) in
  app w' = fst (Stop (lifecycle d) (app w)) /\
  calls w' = calls w ++ [(MStop, snd (Stop (lifecycle d) (app w)))] /\
  task w' = task w /\ err w' = err w /\ sched w' = sched w.
Proof.
  unfold invoke. destruct (Stop (lifecycle d) (app w)) as [a e]; simpl; auto.
Qed.

Lemma yield_settled w : task w <> Pending -> yield d w = w.
Proof. unfold yield. destruct (task w); congruence. Qed.

Lemma yield_now w : task w = Pending -> sched w = 0 -> yield d w = run_task d w.
Proof. unfold yield. now intros -> ->. Qed.

Lemma yield_later w n :
  task w = Pending -> sched w = S n -> yield d w = set_sched n w.
Proof. unfold yield. now intros -> ->. Qed.

Lemma ignore_all_settled pre w :
  task w <> Pending ->
  app (ignore_all d pre w) = app w /\ calls (ignore_all d pre w) = calls w /\
  task (ignore_all d pre w) = task w /\ err (ignore_all d pre w) = err w.
Proof.
  unfold ignore_all. revert w. induction pre as [|x pre IH]; intros w H; simpl; auto.
  unfold ignore at 2 4 6 8. rewrite (yield_settled w H).
  destruct (IH (write_log (LogInfo "signal caught" x) w) H) as (A & B & C & D).
  auto.
Qed.


(** It has not run yet when its turn is beyond the length of [pre]. *)
Lemma goroutine_waiting pre w :
  task w = Pending -> List.length pre < sched w ->
  let w' := yield d (ignore_all d pre w) in
  app w' = app w /\ calls w' = calls w /\ task w' = Pending /\
  err w' = err w /\ S (sched w' + List.length pre) = sched w.
Proof.
  unfold ignore_all. revert w. induction pre as [|x pre IH]; intros w HP Hn; simpl in *.
  - destruct (sched w) as [|n] eqn:En; [lia|].
    rewrite (yield_later w HP En). simpl. repeat split; auto.
  - destruct (sched w) as [|n] eqn:En; [lia|].
    unfold ignore at 2 4 6 8 10. rewrite (yield_later w HP En).
    destruct (IH (write_log (LogInfo "signal caught" x) (set_sched n w)))
      as (A & B & C & D & E); [exact HP|simpl; lia|].
    simpl in *. repeat split; auto. lia.
Qed.

Lemma shut_down_unfold w s :
  shut_down d w s
  = yield d (fst (invoke MStop (Stop (lifecycle d))
                    (write_log (LogInfo "signal caught" s) (yield d w)))).
Proof. reflexivity. Qed.

(** [Start] is run at most once: the calls of [Start] recorded and what
    the goroutine owes add up to the same number before and after. *)
Lemma yield_budget w :
  count MStart (calls (yield d w)) + budget (yield d w)
  = count MStart (calls w) + budget w.
Proof.
  unfold yield, budget. destruct (task w) eqn:T; rewrite ?T; try reflexivity.
  destruct (sched w); [|simpl; now rewrite T].
  destruct (run_task_fields w) as (_ & B & C & _).
  rewrite B, C, count_app.
  change (count MStart [(MStart, snd (Start (lifecycle d) (app w)))]) with 1. lia.
Qed.

Lemma ignore_all_budget pre w :
  count MStart (calls (ignore_all d pre w)) + budget (ignore_all d pre w)
  = count MStart (calls w) + budget w.
Proof.
  unfold ignore_all. revert w. induction pre as [|x pre IH]; intros w; simpl; auto.
  rewrite IH. unfold ignore. exact (yield_budget w).
Qed.

Lemma shut_down_budget w s :
  count MStart (calls (shut_down d w s)) + budget (shut_down d w s)
  = count MStart (calls w) + budget w.
Proof.
  rewrite shut_down_unfold, yield_budget.
  set (w1 := write_log (LogInfo "signal caught" s) (yield d w)).
  destruct (invoke_Stop_fields w1) as (_ & B & C & _).
  unfold budget. rewrite B, C, count_app.
  change (count MStart [(MStop, snd (Stop (lifecycle d) (app w1)))]) with 0.
  rewrite Nat.add_0_r. exact (yield_budget w).
Qed.

Lemma Wait_budget ch w :
  count MStart (calls (world_of (Wait d ch w))) + budget (world_of (Wait d ch w))
  = count MStart (calls w) + budget w.
Proof.
  unfold Wait. set (w0 := Notify 2 _ w).
  change (count MStart (calls w) + budget w)
    with (count MStart (calls w0) + budget w0).
  destruct (first_terminating ch) as [Hall|(pre & s & post & -> & Hpre & Hs)].
  - rewrite Wait_loop_blocked by assumption. simpl.
    now rewrite yield_budget, ignore_all_budget.
  - rewrite Wait_loop_first by assumption. simpl.
    now rewrite shut_down_budget, ignore_all_budget.
Qed.

End Goroutine.

(** ** Further properties of [Serve] and [Wait] *)

Lemma initialised_fields (St : Type) (lc : Lifecycle St) (w : World St) :
  let w0 := initialised {| lifecycle := lc |} w in
  app w0 = fst (Init lc (app w)) /\ task w0 = Pending /\ sched w0 = sched w /\
  err w0 = None.
Proof.
  unfold initialised, invoke. simpl. destruct (Init lc (app w)); simpl; auto.
Qed.

(** X1. [Serve] has no way out but a failed [Init] or a terminating
    signal: it has not returned exactly when [Init] succeeded and none of
    the signals received, whatever their values, is INT, QUIT or TERM. *)
Theorem Serve_blocked_iff_no_terminating_signal :
  forall (St : Type) (lc : Lifecycle St) (ch : list Signal) (w : World St),
    serve_return (Serve lc ch w) = None <->
    snd (Init lc (app w)) = None /\
    Forall (fun x => ~ In x [SIGINT; SIGQUIT; SIGTERM]) ch.
Proof.
  intros St lc ch w. fold terminating.
  destruct (snd (Init lc (app w))) as [m|] eqn:E.
  - rewrite (Serve_Init_failed lc ch w E). simpl. split; [discriminate|].
    intros [H _]. discriminate.
  - rewrite (Serve_Init_ok lc ch w E). unfold Wait.
    destruct (first_terminating ch) as [Hall|(pre & s & post & -> & Hpre & Hs)].
    + rewrite Wait_loop_blocked by assumption. simpl. tauto.
    + rewrite Wait_loop_first by assumption. simpl. split; [discriminate|].
      intros [_ H]. rewrite Forall_forall in H. exfalso.
      apply (H s); [|exact Hs]. apply in_or_app. right. now left.
Qed.

Lemma Serve_blocked_iff_no_terminating_signal_witness :
  serve_return (Serve starting [SIGHUP; 13%Z; 0%Z; SIGUSR2] (fresh 0 1)) = None.
Proof.
  apply (proj2 (Serve_blocked_iff_no_terminating_signal starting
                  [SIGHUP; 13%Z; 0%Z; SIGUSR2] (fresh 0 1))).
  split; [reflexivity|].
  repeat (apply Forall_cons; [simpl; intuition discriminate|]). apply Forall_nil.
Defined.

(** X2. The calls of a run of [Serve]: [Init] exactly once and first;
    then at most one [Start] and at most one [Stop]; nothing at all after
    a failed [Init]; and when [Init] succeeded, [Start] has not been
    called exactly when the goroutine is still pending. *)
Theorem Serve_calls_each_callback_at_most_once :
  forall (St : Type) (lc : Lifecycle St) (ch : list Signal) (w : World St),
    exists l,
      calls (serve_world (Serve lc ch w))
      = calls w ++ (MInit, snd (Init lc (app w))) :: l /\
      count MInit l = 0 /\ count MStart l <= 1 /\ count MStop l <= 1 /\
      (snd (Init lc (app w)) <> None -> l = []) /\
      (snd (Init lc (app w)) = None ->
       (count MStart l = 0 <-> task (serve_world (Serve lc ch w)) = Pending)).
Proof.
  intros St lc ch w.
  destruct (Serve_calls lc ch w) as (l & E & HI & _ & HS & HF).
  exists l. split; [exact E|]. split; [exact HI|].
  assert (K : snd (Init lc (app w)) = None ->
              count MStart l + budget (serve_world (Serve lc ch w)) = 1).
  { intros Hok.
    assert (C : count MStart (calls (serve_world (Serve lc ch w)))
                = count MStart (calls w) + count MStart l).
    { rewrite E, count_app. reflexivity. }
    revert C. rewrite (Serve_Init_ok lc ch w Hok). intros C.
    pose proof (Wait_budget {| lifecycle := lc |} ch
                  (initialised {| lifecycle := lc |} w)) as B.
    rewrite after_Wait_calls in C.
    assert (T : task (serve_world (after_Wait
                  (Wait {| lifecycle := lc |} ch (initialised {| lifecycle := lc |} w))))
                = task (world_of
                  (Wait {| lifecycle := lc |} ch (initialised {| lifecycle := lc |} w)))).
    { destruct (Wait _ _ _) as [[sg [m|]] w1 rest|w1]; reflexivity. }
    unfold budget in *. rewrite T.
    destruct (initialised_fields lc w) as (_ & TP & _).
    rewrite TP, initialised_calls, count_app in B.
    change (count MStart [(MInit, snd (Init lc (app w)))]) with 0 in B.
    lia. }
  destruct (snd (Init lc (app w))) as [m|] eqn:Hinit.
  - rewrite (HF ltac:(discriminate)). simpl.
    repeat split; auto; discriminate.
  - specialize (K eq_refl). unfold budget in K.
    split; [lia|]. split; [exact HS|]. split; [congruence|]. intros _.
    destruct (task (serve_world (Serve lc ch w))); split; intros; (lia || congruence).
Qed.

Lemma Serve_calls_each_callback_at_most_once_witness :
  exists l,
    calls (serve_world (Serve failing [SIGHUP; SIGQUIT; SIGINT] (fresh 0 9)))
    = (MInit, None) :: l /\
    count MStart l = 0 /\
    task (serve_world (Serve failing [SIGHUP; SIGQUIT; SIGINT] (fresh 0 9))) = Pending.
Proof.
  destruct (Serve_calls_each_callback_at_most_once failing
              [SIGHUP; SIGQUIT; SIGINT] (fresh 0 9)) as (l & E & _ & _ & _ & _ & H).
  exists l. split; [exact E|].
  assert (T : task (serve_world (Serve failing [SIGHUP; SIGQUIT; SIGINT] (fresh 0 9)))
              = Pending) by reflexivity.
  split; [exact (proj2 (H eq_refl) T)|exact T].
Defined.

(** X3. [Wait] logs "signal caught" for exactly the signals it takes from
    the channel, in order, and nothing else: all of them while it is
    blocked; when it returns, the signals up to the one it returns, the
    others being left in the channel. *)
Theorem Wait_logs_the_signals_it_receives :
  forall (St : Type) (d : Dissembler St) (ch : list Signal) (w : World St),
    exists received,
      logs (world_of (Wait d ch w))
      = logs w ++ map (LogInfo "signal caught") received /\
      match Wait d ch w with
      | Returned r _ rest =>
          ch = received ++ rest /\ exists pre, received = pre ++ [fst r]
      | Blocked _ => received = ch
      end.
Proof.
  intros St d ch w. unfold Wait. set (w0 := Notify 2 _ w).
  assert (L : logs w0 = logs w) by reflexivity.
  destruct (first_terminating ch) as [Hall|(pre & s & post & -> & Hpre & Hs)].
  - rewrite Wait_loop_blocked by assumption. simpl.
    exists ch. now rewrite yield_logs, ignore_all_logs, L.
  - rewrite Wait_loop_first by assumption. simpl.
    exists (pre ++ [s]).
    rewrite shut_down_logs, ignore_all_logs, L, map_app, <- !app_assoc.
    split; [reflexivity|]. split; [reflexivity|]. now exists pre.
Qed.

Lemma Wait_logs_the_signals_it_receives_witness :
  exists received,
    logs (world_of (Wait {| lifecycle := starting |}
                      [SIGUSR1; SIGTERM; SIGHUP; SIGINT] (fresh 0 0)))
    = map (LogInfo "signal caught") received /\
    [SIGUSR1; SIGTERM; SIGHUP; SIGINT] = received ++ [SIGHUP; SIGINT].
Proof.
  destruct (Wait_logs_the_signals_it_receives {| lifecycle := starting |}
              [SIGUSR1; SIGTERM; SIGHUP; SIGINT] (fresh 0 0)) as (rcv & L & H).
  exists rcv. split; [exact L|exact (proj1 H)].
Defined.

(** X4. What the main thread does is not touched by the goroutine: for
    two lifecycles with the same [Init], whatever their [Start] and [Stop]
    do and whenever the goroutine is scheduled, runs of [Serve] on the same
    signals from worlds with the same application state, log and
    subscriptions end with the same log and the same subscriptions, and
    add the same number of calls of [Stop]. *)
Theorem main_thread_independent_of_goroutine :
  forall (St : Type) (lc1 lc2 : Lifecycle St) (ch : list Signal)
         (w1 w2 : World St),
    (forall a, Init lc1 a = Init lc2 a) ->
    app w1 = app w2 -> logs w1 = logs w2 -> subs w1 = subs w2 ->
    logs (serve_world (Serve lc1 ch w1)) = logs (serve_world (Serve lc2 ch w2)) /\
    subs (serve_world (Serve lc1 ch w1)) = subs (serve_world (Serve lc2 ch w2)) /\
    count MStop (calls (serve_world (Serve lc1 ch w1))) + count MStop (calls w2)
    = count MStop (calls (serve_world (Serve lc2 ch w2))) + count MStop (calls w1).
Proof.
  intros St lc1 lc2 ch w1 w2 HI Ha Hl Hs.
  assert (E : snd (Init lc1 (app w1)) = snd (Init lc2 (app w2)))
    by now rewrite HI, Ha.
  destruct (snd (Init lc2 (app w2))) as [m|] eqn:E2.
  - rewrite (Serve_Init_failed lc1 ch w1 E), (Serve_Init_failed lc2 ch w2 E2).
    unfold invoke. destruct (Init lc1 (app w1)) as [a1 e1], (Init lc2 (app w2)) as [a2 e2].
    simpl serve_world. simpl logs. simpl subs. simpl calls.
    rewrite !count_app.
    change (count MStop [(MInit, e1)]) with 0.
    change (count MStop [(MInit, e2)]) with 0.
    repeat split; auto. lia.
  - rewrite (Serve_Init_ok lc1 ch w1 E), (Serve_Init_ok lc2 ch w2 E2).
    pose proof (initialised_logs lc1 w1) as L1.
    pose proof (initialised_logs lc2 w2) as L2.
    pose proof (initialised_subs lc1 w1) as S1.
    pose proof (initialised_subs lc2 w2) as S2.
    assert (C1 : count MStop (calls (initialised {| lifecycle := lc1 |} w1))
                 = count MStop (calls w1)).
    { rewrite initialised_calls, count_app. apply Nat.add_0_r. }
    assert (C2 : count MStop (calls (initialised {| lifecycle := lc2 |} w2))
                 = count MStop (calls w2)).
    { rewrite initialised_calls, count_app. apply Nat.add_0_r. }
    set (d1 := {| lifecycle := lc1 |}) in *. set (d2 := {| lifecycle := lc2 |}) in *.
    remember (initialised d1 w1) as i1 eqn:Q1.
    remember (initialised d2 w2) as i2 eqn:Q2. clear Q1 Q2.
    pose proof (Wait_subs d1 ch i1) as T1.
    pose proof (Wait_subs d2 ch i2) as T2.
    destruct (Wait_calls d1 ch i1) as (l1 & K1 & _ & _ & N1).
    destruct (Wait_calls d2 ch i2) as (l2 & K2 & _ & _ & N2).
    revert T1 T2 K1 K2 N1 N2. unfold Wait.
    destruct (first_terminating ch) as [Hall|(pre & s & post & -> & Hpre & Hs')].
    + rewrite !Wait_loop_blocked by assumption.
      cbn [after_Wait serve_world world_of]. intros T1 T2 K1 K2 N1 N2.
      rewrite !yield_logs, !ignore_all_logs. cbn [logs Notify].
      rewrite T1, T2, K1, K2, !count_app, N1, N2, C1, C2, L1, L2, S1, S2, Hl, Hs.
      repeat split; auto. lia.
    + rewrite !Wait_loop_first by assumption.
      cbn [after_Wait serve_world world_of]. intros T1 T2 K1 K2 N1 N2.
      rewrite !shut_down_logs, !ignore_all_logs. cbn [logs Notify].
      rewrite T1, T2, K1, K2, !count_app, N1, N2, C1, C2, L1, L2, S1, S2, Hl, Hs.
      repeat split; auto. lia.
Qed.

Lemma main_thread_independent_of_goroutine_witness :
  logs (serve_world (Serve failing [SIGUSR1; SIGTERM] (fresh 0 0)))
  = logs (serve_world (Serve starting [SIGUSR1; SIGTERM] (fresh 0 4))) /\
  app (serve_world (Serve failing [SIGUSR1; SIGTERM] (fresh 0 0)))
  <> app (serve_world (Serve starting [SIGUSR1; SIGTERM] (fresh 0 4))).
Proof.
  split; [|simpl; discriminate].
  exact (proj1 (main_thread_independent_of_goroutine failing starting
                  [SIGUSR1; SIGTERM] (fresh 0 0) (fresh 0 4)
                  (fun a => eq_refl) eq_refl eq_refl eq_refl)).
Defined.



(** X6. When [Init] succeeds and the goroutine is not scheduled before
    the first terminating signal [s] is handled, [Stop] acts on the state
    left by [Init] alone.  If the goroutine's turn comes right after
    [Stop], [Start] then runs on the state left by [Stop]; if it comes
    later, [Serve] returns without [Start] ever having been called. *)
Theorem Stop_can_run_before_Start :
  forall (St : Type) (lc : Lifecycle St) (pre post : list Signal) (s : Signal)
         (w : World St),
    snd (Init lc (app w)) = None ->
    Forall (fun x => ~ In x [SIGINT; SIGQUIT; SIGTERM]) pre ->
    In s [SIGINT; SIGQUIT; SIGTERM] ->
    List.length pre < sched w ->
    let a1 := fst (Init lc (app w)) in
    let a2 := fst (Stop lc a1) in
    exists w',
      Serve lc (pre ++ s :: post) w = ServeReturned None w' /\
      (sched w = S (List.length pre) ->
       app w' = fst (Start lc a2) /\
       calls w'
       = calls w ++ [(MInit, None); (MStop, snd (Stop lc a1)); (MStart, snd (Start lc a2))]) /\
      (S (List.length pre) < sched w ->
       app w' = a2 /\
       calls w' = calls w ++ [(MInit, None); (MStop, snd (Stop lc a1))] /\
       task w' = Pending).
Proof.
  intros St lc pre post s w Hok Hpre Hs Hn a1 a2. fold terminating in *.
  rewrite (Serve_Init_ok lc _ w Hok). unfold Wait.
  rewrite Wait_loop_first by assumption. cbn [after_Wait].
  eexists. split; [reflexivity|].
  set (d := {| lifecycle := lc |}).
  destruct (initialised_fields lc w) as (A0 & T0 & N0 & E0). fold d in A0, T0, N0, E0.
  pose proof (initialised_calls lc w) as C0. fold d in C0. rewrite Hok in C0.
  set (w0 := Notify 2 _ (initialised d w)).
  destruct (goroutine_waiting d pre w0) as (A1 & C1 & T1 & E1 & N1);
    [exact T0|change (sched w0) with (sched (initialised d w)); lia|].
  change (app w0) with (app (initialised d w)) in *.
  change (calls w0) with (calls (initialised d w)) in *.
  change (sched w0) with (sched (initialised d w)) in *.
  rewrite shut_down_unfold.
  set (w1 := yield d (ignore_all d pre w0)) in *.
  set (w2 := write_log (LogInfo "signal caught" s) w1).
  destruct (invoke_Stop_fields d w2) as (A3 & C3 & T3 & E3 & N3).
  change (app w2) with (app w1) in *. change (calls w2) with (calls w1) in *.
  change (task w2) with (task w1) in *. change (sched w2) with (sched w1) in *.
  set (w3 := fst (invoke MStop (Stop (lifecycle d)) w2)) in *.
  assert (T : task w3 = Pending) by now rewrite T3.
  split.
  - intros Hnow.
    assert (Z0 : sched w3 = 0) by lia.
    rewrite (yield_now d w3 T Z0).
    destruct (run_task_fields d w3) as (A4 & C4 & _).
    rewrite A4, C4, A3, C3, A1, C1, A0, C0, <- !app_assoc.
    split; reflexivity.
  - intros Hlate.
    destruct (sched w3) as [|k] eqn:Ek; [lia|].
    rewrite (yield_later d w3 T Ek). cbn [app calls task set_sched].
    rewrite A3, C3, T, A1, C1, A0, C0, <- !app_assoc.
    repeat split; reflexivity.
Qed.

Lemma Stop_can_run_before_Start_witness :
  exists w',
    Serve starting ([SIGUSR2] ++ SIGINT :: []) (fresh 0 5) = ServeReturned None w' /\
    app w' = 2 /\
    calls w' = [(MInit, None); (MStop, Some "stop failed"%string)] /\
    task w' = Pending.
Proof.
  assert (H1 : Forall (fun x => ~ In x [SIGINT; SIGQUIT; SIGTERM]) [SIGUSR2]).
  { repeat (apply Forall_cons; [simpl; intuition discriminate|]). apply Forall_nil. }
  assert (H2 : In SIGINT [SIGINT; SIGQUIT; SIGTERM]) by (simpl; auto).
  assert (H3 : List.length [SIGUSR2] < sched (fresh 0 5)) by (simpl; lia).
  destruct (Stop_can_run_before_Start starting [] (fresh 0 5) eq_refl H1 H2 H3)
    as (w' & E & _ & H).
  exists w'. split; [exact E|]. apply H. simpl. lia.
Defined.

(** X7. [Wait] itself calls no callback but [Stop]: when no goroutine is
    pending, a run of [Wait] on signals none of which is terminating
    leaves the application state and the record of calls as they were,
    and a run that meets a terminating signal adds the one call of [Stop],
    made on the state [Wait] started from. *)
Theorem Wait_alone_calls_only_Stop :
  forall (St : Type) (d : Dissembler St) (pre post : list Signal) (s : Signal)
         (w : World St),
    task w <> Pending ->
    Forall (fun x => ~ In x [SIGINT; SIGQUIT; SIGTERM]) pre ->
    In s [SIGINT; SIGQUIT; SIGTERM] ->
    (exists w',
        Wait d pre w = Blocked w' /\ app w' = app w /\ calls w' = calls w) /\
    (exists w',
        Wait d (pre ++ s :: post) w = Returned (s, None) w' post /\
        app w' = fst (Stop (lifecycle d) (app w)) /\
        calls w' = calls w ++ [(MStop, snd (Stop (lifecycle d) (app w)))]).
Proof.
  intros St d pre post s w HT Hpre Hs. fold terminating in *. unfold Wait.
  set (w0 := Notify 2 _ w).
  assert (T0 : task w0 <> Pending) by exact HT.
  destruct (ignore_all_settled d pre w0 T0) as (A1 & C1 & T1 & _).
  change (app w0) with (app w) in *. change (calls w0) with (calls w) in *.
  change (task w0) with (task w) in *.
  assert (Y : yield d (ignore_all d pre w0) = ignore_all d pre w0).
  { apply yield_settled. now rewrite T1. }
  split.
  - rewrite Wait_loop_blocked by assumption. eexists. split; [reflexivity|].
    rewrite Y. now split.
  - rewrite Wait_loop_first by assumption. eexists. split; [reflexivity|].
    rewrite shut_down_unfold, Y.
    set (w2 := write_log (LogInfo "signal caught" s) (ignore_all d pre w0)).
    destruct (invoke_Stop_fields d w2) as (A3 & C3 & T3 & _).
    change (app w2) with (app (ignore_all d pre w0)) in *.
    change (calls w2) with (calls (ignore_all d pre w0)) in *.
    change (task w2) with (task (ignore_all d pre w0)) in *.
    rewrite yield_settled by (rewrite T3, T1; exact HT).
    rewrite A3, C3, A1, C1. now split.
Qed.

Lemma Wait_alone_calls_only_Stop_witness :
  exists w',
    Wait {| lifecycle := recorder |} ([SIGHUP] ++ SIGTERM :: [SIGINT]) (fresh [] 0)
    = Returned (SIGTERM, None) w' [SIGINT] /\
    app w' = ["Stop"%string] /\
    calls w' = [(MStop, None)].
Proof.
  assert (H0 : task (fresh (St := list string) [] 0) <> Pending) by discriminate.
  assert (H1 : Forall (fun x => ~ In x [SIGINT; SIGQUIT; SIGTERM]) [SIGHUP]).
  { repeat (apply Forall_cons; [simpl; intuition discriminate|]). apply Forall_nil. }
  assert (H2 : In SIGTERM [SIGINT; SIGQUIT; SIGTERM]) by (simpl; auto).
  exact (proj2 (Wait_alone_calls_only_Stop {| lifecycle := recorder |}
                  [SIGINT] (fresh [] 0) H0 H1 H2)).
Defined.
